(** * accountingcalculatorbot.py: the result extractor, the launch keyboard
      and the update handlers.

    Python strings are sequences of Unicode code points, so a [str] is a list
    of code points; ASCII literals of the source are written with [U]. *)

From Stdlib Require Import List NArith ZArith Bool Lia Ascii String DecimalString.
From Stdlib Require Import Permutation.
Import ListNotations.

Open Scope N_scope.
Open Scope list_scope.

(* ------------------------------------------------------------------ *)
(** ** Strings *)

Module Str.

Definition str := list N.

(** An ASCII literal of the source as a sequence of code points. *)
Definition U (s : string) : str := map N_of_ascii (list_ascii_of_string s).

Definition LF : N := 10.      (* '\n' *)
Definition DOT : N := 46.     (* '.'  *)
Definition SPACE : N := 32.   (* ' '  *)

(** Truth value of a string in a condition ([if init_value:]). *)
Definition truthy (s : str) : bool :=
  match s with [] => false | _ :: _ => true end.

(** [s.split(sep)] for a one-character separator: every occurrence cuts, so
    k occurrences give k+1 pieces and the empty string gives ['']. *)
Fixpoint split (sep : N) (s : str) : list str :=
  match s with
  | [] => [[]]
  | c :: rest =>
      if c =? sep then [] :: split sep rest
      else match split sep rest with
           | piece :: pieces => (c :: piece) :: pieces
           | [] => [[c]]
           end
  end.

(** [sep.join(pieces)] for a one-character separator. *)
Fixpoint join (sep : N) (pieces : list str) : str :=
  match pieces with
  | [] => []
  | [piece] => piece
  | piece :: more => piece ++ sep :: join sep more
  end.

(** [sub in s]: [sub] occurs in [s] as a contiguous block. *)
Definition contains (sub s : str) : Prop :=
  exists before after, s = before ++ sub ++ after.

Fixpoint starts_with (sub s : str) : bool :=
  match sub, s with
  | [], _ => true
  | _ :: _, [] => false
  | a :: sub', b :: s' => (a =? b) && starts_with sub' s'
  end.

Fixpoint containsb (sub s : str) : bool :=
  starts_with sub s ||
  match s with
  | [] => false
  | _ :: s' => containsb sub s'
  end.

(** [str(n)] and [f'{n}'] for an int: decimal digits, '-' for negatives. *)
Definition str_of_int (n : Z) : str := U (NilZero.string_of_int (Z.to_int n)).

End Str.
Import Str.

(* ------------------------------------------------------------------ *)
(** ** The regular expression of [get_math_result] *)

Module Re.

(** Code points of the Unicode category Nd (decimal digit), the characters
    [\d] matches in a str pattern; inclusive ranges, Unicode 14. *)
Definition Nd_ranges : list (N * N) :=
  [ (48, 57); (1632, 1641); (1776, 1785); (1984, 1993); (2406, 2415);
    (2534, 2543); (2662, 2671); (2790, 2799); (2918, 2927); (3046, 3055);
    (3174, 3183); (3302, 3311); (3430, 3439); (3558, 3567); (3664, 3673);
    (3792, 3801); (3872, 3881); (4160, 4169); (4240, 4249); (6112, 6121);
    (6160, 6169); (6470, 6479); (6608, 6617); (6784, 6793); (6800, 6809);
    (6992, 7001); (7088, 7097); (7232, 7241); (7248, 7257); (42528, 42537);
    (43216, 43225); (43264, 43273); (43472, 43481); (43504, 43513);
    (43600, 43609); (44016, 44025); (65296, 65305); (66720, 66729);
    (68912, 68921); (69734, 69743); (69872, 69881); (69942, 69951);
    (70096, 70105); (70384, 70393); (70736, 70745); (70864, 70873);
    (71248, 71257); (71360, 71369); (71472, 71481); (71904, 71913);
    (72016, 72025); (72784, 72793); (73040, 73049); (73120, 73129);
    (92768, 92777); (92864, 92873); (93008, 93017); (120782, 120831);
    (123200, 123209); (123632, 123641); (125264, 125273); (130032, 130041) ].

Definition in_range (c : N) (r : N * N) : bool := (fst r <=? c) && (c <=? snd r).

(** [\d] *)
Definition is_digit (c : N) : bool := existsb (in_range c) Nd_ranges.

(** [[\d\.]] *)
Definition in_class (c : N) : bool := is_digit c || (c =? DOT).

(** [$] without MULTILINE: at the end of the string, or just before a
    newline that is the last character. [rest] is the unread input. *)
Definition at_dollar (rest : str) : bool :=
  match rest with
  | [] => true
  | [c] => c =? LF
  | _ => false
  end.

(** The remaining repetitions of the greedy [[\d\.]+] followed by [$]: take
    one more character while that leads to a match, otherwise stop here. *)
Fixpoint more_then_dollar (s : str) : option str :=
  let stop := if at_dollar s then Some [] else None in
  match s with
  | c :: rest =>
      if in_class c then
        match more_then_dollar rest with
        | Some m => Some (c :: m)
        | None => stop
        end
      else stop
  | [] => stop
  end.

(** [([\d\.]+)$] tried at the start of [s]; the result is group 1. *)
Definition match_here (s : str) : option str :=
  match s with
  | c :: rest =>
      if in_class c then option_map (cons c) (more_then_dollar rest) else None
  | [] => None
  end.

(** [re.search(r'([\d\.]+)$', s)]: the match at the leftmost position that
    has one; [None] when no position has. *)
Fixpoint search (s : str) : option str :=
  match match_here s with
  | Some m => Some m
  | None =>
      match s with
      | [] => None
      | _ :: rest => search rest
      end
  end.

End Re.

(* ------------------------------------------------------------------ *)
(** ** get_math_result *)

(** Get the last number from history. *)
Definition get_math_result (calc_history : str) : str :=
  match Re.search calc_history with
  | Some m => m
  | None => []
  end.

(* ------------------------------------------------------------------ *)
(** ** make_calc_keyboard *)

Definition CALC_URL : str := U "https://accountingcalculator-37edb.web.app".

Module WebAppInfo.
Record t := Build { url : str }.
End WebAppInfo.

Module KeyboardButton.
Record t := Build { text : str; web_app : WebAppInfo.t }.
End KeyboardButton.

Module ReplyKeyboardMarkup.
Record t := Build {
  keyboard : list (list KeyboardButton.t);
  one_time_keyboard : bool;
  resize_keyboard : bool }.
End ReplyKeyboardMarkup.

(** Show Keyboard Button to launch Web App. *)
Definition make_calc_keyboard (init_value : str) : ReplyKeyboardMarkup.t :=
  let but_caption := U "Call calculator" in
  let url := CALC_URL in
  (* add number from previous calculations *)
  let '(url, but_caption) :=
    if truthy init_value then
      (url ++ U "?value=" ++ init_value,
       but_caption ++ U " with last value=" ++ init_value)
    else (url, but_caption) in
  let web_info := WebAppInfo.Build url in
  let button := [[KeyboardButton.Build but_caption web_info]] in
  ReplyKeyboardMarkup.Build button true true.

(** The url and the label of the one button a markup of this bot shows. *)
Definition launch_url (markup : ReplyKeyboardMarkup.t) : str :=
  match ReplyKeyboardMarkup.keyboard markup with
  | [[button]] => WebAppInfo.url (KeyboardButton.web_app button)
  | _ => []
  end.

Definition launch_label (markup : ReplyKeyboardMarkup.t) : str :=
  match ReplyKeyboardMarkup.keyboard markup with
  | [[button]] => KeyboardButton.text button
  | _ => []
  end.

(* ------------------------------------------------------------------ *)
(** ** Updates, as far as the handlers read them *)

Module User.
Record t := Build { id : Z; full_name : str }.
End User.

Module WebAppData.
Record t := Build { data : str }.
End WebAppData.

Module Message.
Record t := Build {
  chat_id : Z;
  text : option str;
  web_app_data : option WebAppData.t }.
End Message.

Module Update.
Record t := Build {
  effective_user : option User.t;
  message : option Message.t;
  effective_message : option Message.t }.
End Update.

(* ------------------------------------------------------------------ *)
(** ** Effects of a handler: log lines and outbound sends *)

(** One call on the outbound channel. *)
Inductive Sent :=
| reply_text (to : Message.t) (text : str) (reply_markup : ReplyKeyboardMarkup.t)
| send_message (chat_id : str) (text : str).

Record World := mkWorld {
  log : list str;       (* messages given to logger.info, oldest first *)
  sent : list Sent }.   (* outbound sends, oldest first *)

Inductive exn := AttributeError.

Inductive outcome (A : Type) :=
| Returned (a : A)
| Raised (e : exn).
Arguments Returned {A} a.
Arguments Raised {A} e.

(** A computation changes the world and returns or raises; what was done
    before a raise stays done. *)
Definition M (A : Type) : Type := World -> World * outcome A.

Definition ret {A} (a : A) : M A := fun w => (w, Returned a).

Definition bind {A B} (m : M A) (k : A -> M B) : M B :=
  fun w =>
    match m w with
    | (w', Returned a) => k a w'
    | (w', Raised e) => (w', Raised e)
    end.

Declare Scope bot_scope.
Delimit Scope bot_scope with bot.
Notation "x <- m ;; k" := (bind m (fun x => k))
  (at level 61, m at next level, right associativity) : bot_scope.
Notation "m ;; k" := (bind m (fun _ => k))
  (at level 61, right associativity) : bot_scope.

(** Reading an attribute or calling a method of an Optional object: [None]
    has none. *)
Definition attr {A} (o : option A) : M A :=
  fun w =>
    match o with
    | Some a => (w, Returned a)
    | None => (w, Raised AttributeError)
    end.

Definition logger_info (msg : str) : M unit :=
  fun w => (mkWorld (log w ++ [msg]) (sent w), Returned tt).

Definition emit (s : Sent) : M unit :=
  fun w => (mkWorld (log w) (sent w ++ [s]), Returned tt).

(** [f'{x}'] for an Optional[str]. *)
Definition format_opt (o : option str) : str :=
  match o with
  | Some s => s
  | None => U "None"
  end.

(* ------------------------------------------------------------------ *)
(** ** The handlers *)

Section Handlers.

(** The administrator's chat, read from the environment at start-up. *)
Variable ADMIN_CHANT_ID : str.

(** [User.mention_markdown_v2] of the telegram library. *)
Variable mention_markdown_v2 : User.t -> str.

Open Scope bot_scope.

(** Command /feedback - send message to bots admin. *)
Definition feedback_cmd (update : Update.t) : M unit :=
  let user := Update.effective_user update in
  message <- attr (Update.message update) ;;
  u <- attr user ;;
  emit (reply_text message
          (mention_markdown_v2 u ++ U ", thank you" ++ [LF])
          (make_calc_keyboard [])) ;;
  effective_message <- attr (Update.effective_message update) ;;
  let message :=
    U "Feedback from " ++ mention_markdown_v2 u ++ U ", chat_id:"
      ++ str_of_int (User.id u) ++ U ":" ++ [LF]
      ++ format_opt (Message.text effective_message) in
  emit (send_message ADMIN_CHANT_ID message).

(** Command /calc - create Keyboard Button. *)
Definition calc_button_cmd (update : Update.t) : M unit :=
  let user := Update.effective_user update in
  u <- attr user ;;
  logger_info (U "Calc_button - " ++ mention_markdown_v2 u) ;;
  let message := U "Press the button to call Web-Calculator" in
  effective_message <- attr (Update.effective_message update) ;;
  emit (reply_text effective_message message (make_calc_keyboard [])).

(** Receive data from Calculator Web App. *)
Definition web_app_data (update : Update.t) : M unit :=
  let user := Update.effective_user update in
  u <- attr user ;;
  logger_info (U "Web_app_data - " ++ mention_markdown_v2 u) ;;
  message <- attr (Update.message update) ;;
  payload <- attr (Message.web_app_data message) ;;
  let calc_history := WebAppData.data payload in
  let calc_history := join LF (rev (split LF calc_history)) in
  let last_value := get_math_result calc_history in
  effective_message <- attr (Update.effective_message update) ;;
  emit (reply_text effective_message calc_history (make_calc_keyboard last_value)).

(** Log event when user launch Web App. *)
Definition connected_website (update : Update.t) : M unit :=
  let user := Update.effective_user update in
  u <- attr user ;;
  logger_info (U "Connected_website - " ++ mention_markdown_v2 u).

End Handlers.

(** The history of the scenario and its lines in reverse order. *)
Definition scenario_history : str := U "1+1=2" ++ LF :: U "2+2=4".
Definition scenario_reversed : str := U "2+2=4" ++ LF :: U "1+1=2".

(* ------------------------------------------------------------------ *)
(** ** Vocabulary of the statements *)

Import Re.

(** [before] is empty or ends outside the class. *)
Definition ends_outside_class (before : str) : Prop :=
  before = [] \/ exists q x, before = q ++ [x] /\ in_class x = false.

(** [t] is the final token of [s] and a numeral: a non-empty run of digits
    and decimal points that ends the string and is not continued to its
    left. A digit is what [\d] matches. *)
Definition final_numeral (s t : str) : Prop :=
  exists before,
    s = before ++ t /\ ends_outside_class before /\
    t <> [] /\ Forall (fun c => in_class c = true) t.

(** No run of digits and decimal points ends the string. *)
Definition no_final_run (s : str) : Prop :=
  forall before c, s = before ++ [c] -> in_class c = false.

(** No digit or decimal point stands at the end of the string or before a
    newline that ends it. *)
Definition no_numeral_at_dollar (s : str) : Prop :=
  forall before c r,
    s = before ++ c :: r -> at_dollar r = true -> in_class c = false.

(** ASCII digits and the decimal point. *)
Definition ascii_digit_or_dot (c : N) : bool :=
  ((48 <=? c) && (c <=? 57)) || (c =? DOT).

Definition is_ascii (c : N) : bool := c <? 128.

(** The unreserved characters of RFC 3986, which a URL carries as they are:
    letters, digits, '-', '.', '_' and '~'. *)
Definition url_unreserved (c : N) : bool :=
  ((65 <=? c) && (c <=? 90)) || ((97 <=? c) && (c <=? 122)) ||
  ((48 <=? c) && (c <=? 57)) ||
  (c =? 45) || (c =? 46) || (c =? 95) || (c =? 126).

(** A piece without the separator in it. *)
Definition no_sep (sep : N) (piece : str) : Prop := ~ In sep piece.

(** A sender, the mention the telegram library makes of a user, and the
    updates of the scenarios. *)
Definition sender_U1 : User.t := User.Build 1 (U "U1").

(** The characters MarkdownV2 reserves; the library writes a backslash
    before each of them in a name. *)
Definition markdown_v2_reserved : str := U "_*[]()~`>#+-=|{}.!".

Definition escape_markdown_v2 (name : str) : str :=
  flat_map
    (fun c => if existsb (N.eqb c) markdown_v2_reserved then [92; c] else [c])
    name.

Definition mention_of (user : User.t) : str :=
  U "[" ++ escape_markdown_v2 (User.full_name user) ++ U "](tg://user?id="
    ++ str_of_int (User.id user) ++ U ")".

Definition scenario_message : Message.t :=
  Message.Build 1 None (Some (WebAppData.Build scenario_history)).

Definition scenario_update : Update.t :=
  Update.Build (Some sender_U1) (Some scenario_message) (Some scenario_message).

Definition feedback_message : Message.t :=
  Message.Build 1 (Some (U "/feedback Hello admin")) None.

Definition feedback_update : Update.t :=
  Update.Build (Some sender_U1) (Some feedback_message) (Some feedback_message).

Definition opened_update : Update.t :=
  Update.Build (Some sender_U1)
    (Some (Message.Build 1 None None)) (Some (Message.Build 1 None None)).

Definition quiet : World := mkWorld [] [].

(** Further updates: a /feedback command that arrives as an edit of an
    earlier message (no [message], only an effective message), a /calc
    command that arrives the same way, and a payload of one line. *)
Definition edited_feedback_update : Update.t :=
  Update.Build (Some sender_U1) None (Some feedback_message).

Definition calc_message : Message.t :=
  Message.Build 1 (Some (U "/calc")) None.

Definition edited_calc_update : Update.t :=
  Update.Build (Some sender_U1) None (Some calc_message).

Definition one_line_message : Message.t :=
  Message.Build 1 None (Some (WebAppData.Build (U "7*6=42"))).

Definition one_line_update : Update.t :=
  Update.Build (Some sender_U1) (Some one_line_message) (Some one_line_message).

(* ------------------------------------------------------------------ *)
(** ** Runs on concrete inputs *)

Example gmr1 : get_math_result (U "1+1=2" ++ LF :: U "2+2=4") = U "4".
Proof. reflexivity. Qed.
Example gmr2 : get_math_result (U "2+2=4" ++ LF :: U "1+1=2") = U "2".
Proof. reflexivity. Qed.
Example gmr3 : get_math_result (U "3*4=12." ++ [LF]) = U "12.".
Proof. reflexivity. Qed.
Example gmr4 : get_math_result (U "3*4=12 ") = [].
Proof. reflexivity. Qed.
Example gmr5 : get_math_result (U "3*4=12" ++ [LF; LF]) = [].
Proof. reflexivity. Qed.
Example gmr6 : get_math_result [1635] = [1635].
Proof. reflexivity. Qed.
Example split1 : split LF (U "a" ++ LF :: U "b" ++ [LF]) = [U "a"; U "b"; []].
Proof. reflexivity. Qed.
Example str_of_int1 : str_of_int (-120) = U "-120" /\ str_of_int 0 = U "0".
Proof. split; reflexivity. Qed.

(* ------------------------------------------------------------------ *)
(** ** Facts about lists of code points *)

Lemma app_tail_cases {A} (l : list A) :
  l = [] \/ exists front x, l = front ++ [x].
Proof.
  induction l as [| x front' _] using rev_ind.
  - now left.
  - right. now exists front', x.
Qed.

(** A block of characters with property [p] at the front of a string is cut
    off before the first character without it. *)
Lemma class_prefix (p : N -> bool) (m r q u : str) (x : N) :
  Forall (fun c => p c = true) m ->
  p x = false ->
  m ++ r = q ++ x :: u ->
  exists q', q = m ++ q' /\ r = q' ++ x :: u.
Proof.
  intros Hm Hx. revert q.
  induction Hm as [| c m Hc Hm IH]; intros q E.
  - exists q. now split.
  - destruct q as [| d q]; simpl in E; injection E as Ec E.
    + congruence.
    + subst d. destruct (IH q E) as [q' [-> ->]].
      exists q'. now split.
Qed.

Module ReFacts.
Import Re.

Lemma LF_not_in_class : in_class LF = false.
Proof. reflexivity. Qed.

Lemma at_dollar_cases (r : str) :
  at_dollar r = true <-> r = [] \/ r = [LF].
Proof.
  destruct r as [| c [| d r]]; simpl; split; intros H; auto.
  - right. apply N.eqb_eq in H. now subst.
  - destruct H as [H | H]; [discriminate | injection H as ->; reflexivity].
  - discriminate.
  - destruct H as [H | H]; discriminate.
Qed.

(** What a successful match of the repetitions has read. *)
Lemma more_then_dollar_sound (s m : str) :
  more_then_dollar s = Some m ->
  Forall (fun c => in_class c = true) m /\
  exists r, s = m ++ r /\ at_dollar r = true.
Proof.
  revert m. induction s as [| c rest IH]; intros m H.
  - simpl in H. injection H as <-. split; [constructor | now exists []].
  - cbn [more_then_dollar] in H.
    assert (Stop : (if at_dollar (c :: rest) then Some [] else None) = Some m ->
                   Forall (fun c => in_class c = true) m /\
                   exists r, c :: rest = m ++ r /\ at_dollar r = true).
    { destruct (at_dollar (c :: rest)) eqn:D; [| discriminate].
      intros E. injection E as <-. split; [constructor | now exists (c :: rest)]. }
    destruct (in_class c) eqn:C; [| now apply Stop].
    destruct (more_then_dollar rest) as [m' |] eqn:R; [| now apply Stop].
    injection H as <-.
    destruct (IH m' eq_refl) as [Hm [r [-> Hr]]].
    split; [now constructor | now exists r].
Qed.

(** The repetitions read a whole run of class characters that stands
    before a [$] position. *)
Lemma more_then_dollar_run (t r : str) :
  Forall (fun c => in_class c = true) t ->
  at_dollar r = true ->
  more_then_dollar (t ++ r) = Some t.
Proof.
  intros Ht Hr. induction Ht as [| c t Hc Ht IH].
  - simpl. apply at_dollar_cases in Hr as [-> | ->]; reflexivity.
  - cbn [app more_then_dollar]. now rewrite Hc, IH.
Qed.

Lemma match_here_sound (s m : str) :
  match_here s = Some m ->
  m <> [] /\ Forall (fun c => in_class c = true) m /\
  exists r, s = m ++ r /\ at_dollar r = true.
Proof.
  destruct s as [| c rest]; simpl; [discriminate |].
  destruct (in_class c) eqn:C; [| discriminate].
  destruct (more_then_dollar rest) as [m' |] eqn:R; [| discriminate].
  intros H. injection H as <-.
  destruct (more_then_dollar_sound _ _ R) as [Hm [r [-> Hr]]].
  split; [discriminate |]. split; [now constructor | now exists r].
Qed.

Lemma match_here_run (t r : str) :
  t <> [] ->
  Forall (fun c => in_class c = true) t ->
  at_dollar r = true ->
  match_here (t ++ r) = Some t.
Proof.
  intros Ne Ht Hr. destruct t as [| c t]; [congruence |].
  inversion Ht as [| ? ? Hc Ht']; subst.
  simpl. now rewrite Hc, more_then_dollar_run.
Qed.

(** No match starts before a character outside the class that is not
    itself at a [$] position. *)
Lemma match_here_blocked (q u : str) (x : N) :
  in_class x = false ->
  at_dollar (x :: u) = false ->
  match_here (q ++ x :: u) = None.
Proof.
  intros Hx Hd.
  destruct (match_here (q ++ x :: u)) as [m |] eqn:E; [| reflexivity].
  destruct (match_here_sound _ _ E) as [_ [Hm [r [Es Hr]]]].
  symmetry in Es.
  destruct (class_prefix in_class m r q u x Hm Hx Es) as [q' [_ ->]].
  apply at_dollar_cases in Hr as [Hr | Hr].
  - now destruct q'.
  - destruct q' as [| d [| e q']]; try discriminate.
    injection Hr as -> ->. simpl in Hd. discriminate.
Qed.

Lemma search_sound (s m : str) :
  search s = Some m ->
  m <> [] /\ Forall (fun c => in_class c = true) m /\
  exists before r, s = before ++ m ++ r /\ at_dollar r = true.
Proof.
  induction s as [| c rest IH]; simpl.
  - discriminate.
  - destruct (in_class c) eqn:C.
    + destruct (more_then_dollar rest) as [m' |] eqn:R; simpl.
      * intros H. injection H as <-.
        destruct (more_then_dollar_sound _ _ R) as [Hm [r [-> Hr]]].
        split; [discriminate |]. split; [now constructor |].
        now exists [], r.
      * intros H. destruct (IH H) as [Ne [Hm [before [r [-> Hr]]]]].
        split; [assumption |]. split; [assumption |].
        now exists (c :: before), r.
    + intros H. destruct (IH H) as [Ne [Hm [before [r [-> Hr]]]]].
      split; [assumption |]. split; [assumption |].
      now exists (c :: before), r.
Qed.

(** The search finds the run of class characters that stands before a
    [$] position and is not continued to its left. *)
Lemma search_run (before t r : str) :
  ends_outside_class before ->
  t <> [] ->
  Forall (fun c => in_class c = true) t ->
  at_dollar r = true ->
  search (before ++ t ++ r) = Some t.
Proof.
  intros Hb Ne Ht Hr.
  induction before as [| a before IH].
  - destruct t as [| c t]; [congruence |].
    simpl app. unfold search; fold search.
    change (c :: t ++ r) with ((c :: t) ++ r).
    now rewrite match_here_run.
  - destruct Hb as [Hb | [q [x [Eq Hx]]]]; [discriminate |].
    assert (Blocked : match_here ((a :: before) ++ t ++ r) = None).
    { rewrite Eq, <- app_assoc. simpl app.
      apply match_here_blocked; [assumption |].
      destruct t as [| c t]; [congruence | reflexivity]. }
    change (search ((a :: before) ++ t ++ r))
      with (match match_here ((a :: before) ++ t ++ r) with
            | Some m => Some m
            | None => search (before ++ t ++ r)
            end).
    rewrite Blocked. apply IH.
    destruct q as [| b q]; simpl in Eq; injection Eq as -> Eq.
    + now left.
    + right. now exists q, x.
Qed.

End ReFacts.

(* ------------------------------------------------------------------ *)
(** ** The result extractor *)

Import ReFacts.

Lemma get_math_result_run (before t r : str) :
  ends_outside_class before ->
  t <> [] ->
  Forall (fun c => in_class c = true) t ->
  at_dollar r = true ->
  get_math_result (before ++ t ++ r) = t.
Proof.
  intros. unfold get_math_result. now rewrite search_run.
Qed.

Lemma search_none (s : str) :
  no_numeral_at_dollar s -> search s = None.
Proof.
  intros No. destruct (search s) as [m |] eqn:E; [| reflexivity].
  destruct (search_sound _ _ E) as [Ne [Hm [before [r [Es Hr]]]]].
  destruct (app_tail_cases m) as [-> | [front [z ->]]]; [congruence |].
  apply Forall_app in Hm as [_ Hz]. apply Forall_inv in Hz as Cz; simpl in Cz.
  rewrite <- app_assoc in Es. simpl in Es.
  rewrite app_assoc in Es.
  now rewrite (No _ _ _ Es Hr) in Cz.
Qed.

Lemma search_some (s : str) (before r : str) (c : N) :
  s = before ++ c :: r -> at_dollar r = true -> in_class c = true ->
  search s <> None.
Proof.
  intros -> Hr Hc.
  assert (G : forall q, search (q ++ c :: r) <> None).
  { induction q as [| a q IH].
    - simpl. rewrite Hc.
      change r with ([] ++ r). rewrite more_then_dollar_run by (auto; constructor).
      discriminate.
    - simpl app. unfold search; fold search.
      destruct (match_here (a :: q ++ c :: r)); [discriminate | exact IH]. }
  apply G.
Qed.

(** Characters outside the class after the last numeral, other than one
    final newline, leave nothing to find. *)
Lemma no_numeral_before_tail (s w : str) :
  w <> [] -> w <> [LF] ->
  Forall (fun c => in_class c = false) w ->
  no_numeral_at_dollar (s ++ w).
Proof.
  intros Ne NeLF Hw before c r E Hr.
  destruct (in_class c) eqn:Hc; [exfalso | reflexivity].
  destruct (app_tail_cases w) as [-> | [w' [y ->]]]; [congruence |].
  apply Forall_app in Hw as [Hw' Hy]. apply Forall_inv in Hy as Cy; simpl in Cy.
  apply at_dollar_cases in Hr as [-> | ->].
  - rewrite app_assoc in E. apply app_inj_tail in E as [_ ->]. congruence.
  - change (before ++ [c; LF]) with (before ++ [c] ++ [LF]) in E.
    rewrite !app_assoc in E. apply app_inj_tail in E as [E ->].
    destruct (app_tail_cases w') as [-> | [w'' [y' ->]]];
      [exfalso; apply NeLF; reflexivity |].
    apply Forall_app in Hw' as [_ Hy']. apply Forall_inv in Hy' as Cy'; simpl in Cy'.
    rewrite app_assoc in E. apply app_inj_tail in E as [_ ->]. congruence.
Qed.

Lemma is_digit_ascii (c : N) :
  is_digit c = true -> c < 128 -> 48 <= c <= 57.
Proof.
  unfold is_digit. intros H Lt.
  apply existsb_exists in H as [r [In Hr]].
  unfold in_range in Hr. apply andb_true_iff in Hr as [Lo Hi].
  apply N.leb_le in Lo, Hi.
  destruct In as [<- | In]; [simpl in *; lia |].
  assert (Far : forallb (fun r => 128 <=? fst r) (tl Nd_ranges) = true)
    by reflexivity.
  rewrite forallb_forall in Far. apply Far in In. apply N.leb_le in In. lia.
Qed.

Lemma in_class_ascii (c : N) :
  in_class c = true -> is_ascii c = true -> ascii_digit_or_dot c = true.
Proof.
  unfold in_class, is_ascii, ascii_digit_or_dot. intros H Lt.
  apply N.ltb_lt in Lt.
  apply orb_true_iff in H as [H | H].
  - apply is_digit_ascii in H; [| assumption].
    apply orb_true_iff. left. apply andb_true_iff. split; apply N.leb_le; lia.
  - now rewrite H, orb_true_r.
Qed.

Lemma ascii_digit_or_dot_unreserved (c : N) :
  ascii_digit_or_dot c = true -> url_unreserved c = true.
Proof.
  unfold ascii_digit_or_dot, url_unreserved, DOT. intros H.
  apply orb_true_iff in H as [H | H]; rewrite H;
    repeat rewrite ?orb_true_r, ?orb_true_l; reflexivity.
Qed.

(** The value returned is a piece of the input, made of class characters. *)
Lemma get_math_result_piece (s : str) :
  Forall (fun c => in_class c = true) (get_math_result s) /\
  exists before r, s = before ++ get_math_result s ++ r.
Proof.
  unfold get_math_result. destruct (search s) as [m |] eqn:E.
  - destruct (search_sound _ _ E) as [_ [Hm [before [r [Es _]]]]].
    split; [assumption | now exists before, r].
  - split; [constructor | now exists [], s].
Qed.

Lemma final_numeral_example :
  final_numeral (U "3*4=12.") (U "12.").
Proof.
  exists (U "3*4="). split; [reflexivity |]. split.
  - right. exists (U "3*4"), 61. now split.
  - split; [discriminate |]. repeat constructor.
Defined.

(** C2: when the final token of the history is a numeral, a run of digits
    and decimal points that ends the string, [get_math_result] returns
    exactly that token, a trailing decimal point included. *)
Theorem C2_final_numeral_returned (s t : str) :
  final_numeral s t -> get_math_result s = t.
Proof.
  intros [before [-> [Hb [Ne Ht]]]].
  rewrite <- (app_nil_r t) at 1.
  now apply get_math_result_run.
Qed.

Lemma C2_witness :
  final_numeral (U "3*4=12.") (U "12.") /\
  get_math_result (U "3*4=12.") = U "12.".
Proof.
  split.
  - exact final_numeral_example.
  - apply (C2_final_numeral_returned (U "3*4=12.") (U "12.")).
    exact final_numeral_example.
Defined.

(** C5, as the claim states it, fails: "12" followed by one newline has no
    run of digits and decimal points at its end, and the result is "12". *)
Lemma C5_counterexample :
  ~ (forall s, no_final_run s -> get_math_result s = []).
Proof.
  intros H. specialize (H (U "12" ++ [LF])).
  assert (No : no_final_run (U "12" ++ [LF])).
  { intros before c E. apply app_inj_tail in E as [_ <-]. reflexivity. }
  apply H in No. discriminate No.
Qed.

(** C5, amended: when no digit or decimal point stands at the end of the
    history or directly before a newline that ends it, the search finds
    nothing and [get_math_result] returns the empty string, an ordinary
    value; and only then is the result empty. *)
Theorem C5_no_numeral_empty (s : str) :
  (no_numeral_at_dollar s -> search s = None /\ get_math_result s = []) /\
  (get_math_result s = [] -> no_numeral_at_dollar s).
Proof.
  split.
  - intros No. unfold get_math_result. now rewrite search_none.
  - intros E before c r Es Hr.
    destruct (in_class c) eqn:Hc; [exfalso | reflexivity].
    pose proof (search_some s before r c Es Hr Hc) as Some.
    unfold get_math_result in E.
    destruct (search s) as [m |] eqn:Em; [| congruence].
    subst m. now destruct (search_sound _ _ Em) as [Ne _].
Qed.

Lemma C5_witness :
  no_numeral_at_dollar (U "3*4=12 ") /\
  search (U "3*4=12 ") = None /\ get_math_result (U "3*4=12 ") = [].
Proof.
  assert (No : no_numeral_at_dollar (U "3*4=12 ")).
  { apply (no_numeral_before_tail (U "3*4=12") [SPACE]).
    - discriminate.
    - discriminate.
    - repeat constructor. }
  split; [exact No |].
  exact (proj1 (C5_no_numeral_empty (U "3*4=12 ")) No).
Defined.

(** C8, as the claim states it, fails: the Arabic-Indic digit three
    (U+0663) is matched by [\d] and returned, and it is not in [0-9.]. *)
Lemma C8_counterexample :
  ~ Forall (fun c => ascii_digit_or_dot c = true) (get_math_result [1635]).
Proof.
  intros H. apply Forall_inv in H. discriminate H.
Qed.

(** C8, amended: the value returned by [get_math_result] consists only of
    characters of the class [[\d\.]], Unicode decimal digits and decimal
    points; when the input is ASCII the value is a run over [0-9.], all of
    them characters a URL carries unescaped, and the launch url is the base
    url alone or the base url followed by ?value= and that run. *)
Theorem C8_result_charset (s : str) :
  Forall (fun c => in_class c = true) (get_math_result s) /\
  (Forall (fun c => is_ascii c = true) s ->
   Forall (fun c => ascii_digit_or_dot c = true) (get_math_result s) /\
   Forall (fun c => url_unreserved c = true) (get_math_result s) /\
   launch_url (make_calc_keyboard (get_math_result s)) =
     if truthy (get_math_result s)
     then CALC_URL ++ U "?value=" ++ get_math_result s
     else CALC_URL).
Proof.
  destruct (get_math_result_piece s) as [Hc [before [r Es]]].
  split; [assumption |].
  intros Ha.
  assert (Hd : Forall (fun c => ascii_digit_or_dot c = true) (get_math_result s)).
  { rewrite Es in Ha.
    apply Forall_app in Ha as [_ Ha]. apply Forall_app in Ha as [Ha _].
    rewrite Forall_forall in *. intros c In.
    apply in_class_ascii; [now apply Hc | now apply Ha]. }
  split; [assumption |]. split.
  - rewrite Forall_forall in *. intros c In.
    apply ascii_digit_or_dot_unreserved. now apply Hd.
  - unfold make_calc_keyboard, launch_url.
    now destruct (truthy (get_math_result s)).
Qed.

Lemma C8_witness :
  Forall (fun c => is_ascii c = true) (U "2+2=4.5") /\
  Forall (fun c => ascii_digit_or_dot c = true) (get_math_result (U "2+2=4.5")) /\
  Forall (fun c => url_unreserved c = true) (get_math_result (U "2+2=4.5")) /\
  launch_url (make_calc_keyboard (get_math_result (U "2+2=4.5"))) =
    CALC_URL ++ U "?value=4.5".
Proof.
  assert (Ha : Forall (fun c => is_ascii c = true) (U "2+2=4.5"))
    by (repeat constructor).
  split; [exact Ha |].
  exact (proj2 (C8_result_charset (U "2+2=4.5")) Ha).
Defined.

(** C9: for a history that ends in a numeral token, [get_math_result]
    returns the token, and also when one newline follows the history; after
    a space, after two or more newlines, and after any other tail of
    characters outside the class the result is empty. *)
Theorem C9_dollar_tolerates_one_newline (s t : str) :
  final_numeral s t ->
  get_math_result s = t /\
  get_math_result (s ++ [LF]) = t /\
  get_math_result (s ++ [SPACE]) = [] /\
  (forall k, (2 <= k)%nat -> get_math_result (s ++ repeat LF k) = []) /\
  (forall w, w <> [] -> w <> [LF] ->
     Forall (fun c => in_class c = false) w ->
     get_math_result (s ++ w) = []).
Proof.
  intros Fin.
  assert (Tail : forall w, w <> [] -> w <> [LF] ->
            Forall (fun c => in_class c = false) w ->
            get_math_result (s ++ w) = []).
  { intros w Ne NeLF Hw. unfold get_math_result.
    now rewrite search_none by now apply no_numeral_before_tail. }
  split; [| split; [| split; [| split]]].
  - destruct Fin as [before [-> [Hb [Ne Ht]]]].
    rewrite <- (app_nil_r t) at 1. now apply get_math_result_run.
  - destruct Fin as [before [-> [Hb [Ne Ht]]]].
    rewrite <- app_assoc. now apply get_math_result_run.
  - apply Tail; [discriminate | discriminate | repeat constructor].
  - intros k Hk. destruct k as [| [| k]]; [lia | lia |].
    apply Tail; [discriminate | discriminate |].
    apply Forall_forall. intros c In. apply repeat_spec in In. now subst c.
  - exact Tail.
Qed.

Lemma C9_witness :
  final_numeral (U "3*4=12.") (U "12.") /\
  get_math_result (U "3*4=12.") = U "12." /\
  get_math_result (U "3*4=12." ++ [LF]) = U "12." /\
  get_math_result (U "3*4=12." ++ [SPACE]) = [] /\
  get_math_result (U "3*4=12." ++ [LF; LF]) = [].
Proof.
  pose proof (C9_dollar_tolerates_one_newline (U "3*4=12.") (U "12.")
                final_numeral_example) as [H1 [H2 [H3 [H4 _]]]].
  split; [exact final_numeral_example |].
  split; [exact H1 |]. split; [exact H2 |]. split; [exact H3 |].
  apply (H4 2%nat). apply le_n.
Defined.

(* ------------------------------------------------------------------ *)
(** ** Splitting into lines and joining them *)

Section Lines.

Variable sep : N.

Lemma split_not_nil (s : str) : split sep s <> [].
Proof.
  destruct s as [| c rest]; simpl; [discriminate |].
  destruct (c =? sep); [discriminate |].
  destruct (split sep rest); discriminate.
Qed.

Lemma join_cons (piece : str) (pieces : list str) :
  pieces <> [] -> join sep (piece :: pieces) = piece ++ sep :: join sep pieces.
Proof. destruct pieces; [congruence | reflexivity]. Qed.

Lemma join_split (s : str) : join sep (split sep s) = s.
Proof.
  induction s as [| c rest IH]; [reflexivity |].
  simpl. destruct (c =? sep) eqn:E.
  - apply N.eqb_eq in E. subst c.
    rewrite join_cons by apply split_not_nil. now rewrite IH.
  - destruct (split sep rest) as [| piece pieces] eqn:S.
    + now destruct (split_not_nil rest).
    + destruct pieces as [| piece' pieces].
      * simpl in *. now rewrite IH.
      * rewrite join_cons in * by discriminate. now rewrite <- IH.
Qed.

Lemma split_pieces_no_sep (s : str) : Forall (no_sep sep) (split sep s).
Proof.
  induction s as [| c rest IH]; simpl.
  - constructor; [intros [] | constructor].
  - destruct (c =? sep) eqn:E.
    + constructor; [intros [] | assumption].
    + apply N.eqb_neq in E.
      destruct (split sep rest) as [| piece pieces].
      * constructor; [| constructor]. intros [H | []]. congruence.
      * inversion IH as [| ? ? Hp Hps]; subst.
        constructor; [| assumption].
        intros [H | H]; [congruence | now apply Hp].
Qed.

Lemma split_plain (piece : str) : no_sep sep piece -> split sep piece = [piece].
Proof.
  induction piece as [| c piece IH]; intros H; [reflexivity |].
  simpl. destruct (c =? sep) eqn:E.
  - apply N.eqb_eq in E. exfalso. apply H. now left.
  - rewrite IH; [reflexivity |]. intros In. apply H. now right.
Qed.

Lemma split_app_sep (piece rest : str) :
  no_sep sep piece -> split sep (piece ++ sep :: rest) = piece :: split sep rest.
Proof.
  induction piece as [| c piece IH]; intros H; simpl.
  - now rewrite N.eqb_refl.
  - destruct (c =? sep) eqn:E.
    + apply N.eqb_eq in E. exfalso. apply H. now left.
    + rewrite IH; [reflexivity |]. intros In. apply H. now right.
Qed.

Lemma split_join (pieces : list str) :
  pieces <> [] -> Forall (no_sep sep) pieces -> split sep (join sep pieces) = pieces.
Proof.
  intros Ne H. induction H as [| piece more Hp Hm IH]; [congruence |].
  destruct more as [| piece' more].
  - simpl. now apply split_plain.
  - change (join sep (piece :: piece' :: more))
      with (piece ++ sep :: join sep (piece' :: more)).
    rewrite split_app_sep by assumption.
    rewrite IH; [reflexivity | discriminate].
Qed.

Lemma rev_split_ok (s : str) :
  rev (split sep s) <> [] /\ Forall (no_sep sep) (rev (split sep s)).
Proof.
  split.
  - intros E. apply (split_not_nil s).
    rewrite <- (rev_involutive (split sep s)), E. reflexivity.
  - apply Forall_rev, split_pieces_no_sep.
Qed.

(** The pieces of the reversed text are the pieces of the text, last first. *)
Lemma split_reversed (s : str) :
  split sep (join sep (rev (split sep s))) = rev (split sep s).
Proof.
  destruct (rev_split_ok s). now apply split_join.
Qed.

End Lines.

Lemma contains_middle (before sub after : str) :
  contains sub (before ++ sub ++ after).
Proof. now exists before, after. Qed.

Lemma starts_with_app (sub after : str) : starts_with sub (sub ++ after) = true.
Proof.
  induction sub as [| a sub IH]; [reflexivity |].
  simpl. now rewrite N.eqb_refl.
Qed.

Lemma containsb_complete (sub s : str) :
  contains sub s -> containsb sub s = true.
Proof.
  intros [before [after ->]].
  induction before as [| a before IH].
  - simpl app. destruct (sub ++ after) eqn:E; simpl;
      rewrite <- E, starts_with_app; reflexivity.
  - simpl. rewrite IH. apply orb_true_r.
Qed.

(* ------------------------------------------------------------------ *)
(** ** The launch keyboard *)

(** C3: for a resume value that is present (non-empty) the url of the launch
    button is the base url followed by ?value= and the value, and its label
    contains the value; for an absent value the url is the base url and the
    label is the fixed caption. *)
Theorem C3_launch_link :
  (forall v : str, v <> [] ->
     make_calc_keyboard v =
       ReplyKeyboardMarkup.Build
         [[KeyboardButton.Build
             (U "Call calculator" ++ U " with last value=" ++ v)
             (WebAppInfo.Build (CALC_URL ++ U "?value=" ++ v))]] true true /\
     launch_url (make_calc_keyboard v) = CALC_URL ++ U "?value=" ++ v /\
     contains v (launch_label (make_calc_keyboard v))) /\
  launch_url (make_calc_keyboard []) = CALC_URL /\
  launch_label (make_calc_keyboard []) = U "Call calculator".
Proof.
  split; [| split; reflexivity].
  intros v Ne. destruct v as [| c v]; [congruence |].
  split; [reflexivity |]. split; [reflexivity |].
  exists (U "Call calculator" ++ U " with last value="), [].
  unfold make_calc_keyboard, launch_label. cbn [truthy ReplyKeyboardMarkup.keyboard
    KeyboardButton.text].
  now rewrite app_nil_r, <- app_assoc.
Qed.

Lemma C3_witness :
  U "4" <> [] /\
  launch_url (make_calc_keyboard (U "4")) = CALC_URL ++ U "?value=4" /\
  contains (U "4") (launch_label (make_calc_keyboard (U "4"))).
Proof.
  assert (Ne : U "4" <> []) by discriminate.
  split; [exact Ne |].
  exact (proj2 (proj1 C3_launch_link (U "4") Ne)).
Defined.

(* ------------------------------------------------------------------ *)
(** ** The handlers *)

(** C10: reversing the lines of a text twice gives the text back. *)
Theorem C10_line_reversal_involutive (s : str) :
  join LF (rev (split LF (join LF (rev (split LF s))))) = s.
Proof.
  now rewrite split_reversed, rev_involutive, join_split.
Qed.

(** C4: the reply to a web-app payload has as body the payload's text with
    its lines in reverse order, and carries the launch keyboard made from
    the value extracted from that body. *)
Theorem C4_web_app_reply
    (mention : User.t -> str) (update : Update.t) (w : World)
    (u : User.t) (m em : Message.t) (payload : WebAppData.t) :
  Update.effective_user update = Some u ->
  Update.message update = Some m ->
  Message.web_app_data m = Some payload ->
  Update.effective_message update = Some em ->
  exists body,
    split LF body = rev (split LF (WebAppData.data payload)) /\
    body = join LF (rev (split LF (WebAppData.data payload))) /\
    web_app_data mention update w =
      (mkWorld (log w ++ [U "Web_app_data - " ++ mention u])
               (sent w ++ [reply_text em body
                             (make_calc_keyboard (get_math_result body))]),
       Returned tt) /\
    launch_url (make_calc_keyboard (get_math_result body)) =
      if truthy (get_math_result body)
      then CALC_URL ++ U "?value=" ++ get_math_result body
      else CALC_URL.
Proof.
  intros Hu Hm Hp Hem.
  exists (join LF (rev (split LF (WebAppData.data payload)))).
  split; [apply split_reversed |]. split; [reflexivity |]. split.
  - unfold web_app_data, bind, attr, logger_info, emit.
    rewrite Hu, Hm, Hp, Hem. reflexivity.
  - unfold make_calc_keyboard, launch_url.
    now destruct (truthy (get_math_result _)).
Qed.

(** C7: for a session-opened event [connected_website] writes one log
    line and sends nothing. *)
Theorem C7_connected_website_logs_only
    (mention : User.t -> str) (update : Update.t) (w : World) (u : User.t) :
  Update.effective_user update = Some u ->
  exists w',
    connected_website mention update w = (w', Returned tt) /\
    log w' = log w ++ [U "Connected_website - " ++ mention u] /\
    sent w' = sent w.
Proof.
  intros Hu. eexists. split.
  - unfold connected_website, bind, attr, logger_info. rewrite Hu. reflexivity.
  - split; reflexivity.
Qed.

(** When the update carries no [message] (the command arrived as an edit
    of an earlier message), [feedback_cmd] raises before anything is sent. *)
Lemma feedback_cmd_without_message
    (ADMIN_CHANT_ID : str) (mention : User.t -> str)
    (update : Update.t) (w : World) :
  Update.message update = None ->
  feedback_cmd ADMIN_CHANT_ID mention update w = (w, Raised AttributeError).
Proof.
  intros Hm. unfold feedback_cmd, bind, attr. now rewrite Hm.
Qed.

(** For a feedback command with trailing text that arrives as a new
    message (the update carries [message]), [feedback_cmd] sends exactly
    two messages: the acknowledgment as a reply to the command, and one
    message to the administrator's chat in which the sender's mention, the
    sender's id and the text of the command stand as they are. *)
Lemma feedback_two_sends_on_message
    (ADMIN_CHANT_ID : str) (mention : User.t -> str)
    (update : Update.t) (w : World)
    (u : User.t) (m em : Message.t) (trailing : str) :
  Update.effective_user update = Some u ->
  Update.message update = Some m ->
  Update.effective_message update = Some em ->
  Message.text em = Some (U "/feedback " ++ trailing) ->
  exists ack forwarded,
    feedback_cmd ADMIN_CHANT_ID mention update w =
      (mkWorld (log w)
               (sent w ++ [reply_text m ack (make_calc_keyboard []);
                           send_message ADMIN_CHANT_ID forwarded]),
       Returned tt) /\
    ack = mention u ++ U ", thank you" ++ [LF] /\
    contains (mention u) forwarded /\
    contains (str_of_int (User.id u)) forwarded /\
    contains trailing forwarded.
Proof.
  intros Hu Hm Hem Ht. do 2 eexists. split; [| split; [reflexivity |]].
  - unfold feedback_cmd, bind, attr, emit. rewrite Hu, Hm, Hem, Ht.
    cbn [format_opt log sent]. rewrite <- app_assoc. reflexivity.
  - split; [| split].
    + apply contains_middle.
    + exists (U "Feedback from " ++ mention u ++ U ", chat_id:"),
        (U ":" ++ [LF] ++ U "/feedback " ++ trailing).
      now rewrite <- !app_assoc.
    + exists (U "Feedback from " ++ mention u ++ U ", chat_id:"
                ++ str_of_int (User.id u) ++ U ":" ++ [LF] ++ U "/feedback "), [].
      now rewrite app_nil_r, <- !app_assoc.
Qed.

Lemma C4_witness :
  Update.effective_user scenario_update = Some sender_U1 /\
  Update.message scenario_update = Some scenario_message /\
  Message.web_app_data scenario_message
    = Some (WebAppData.Build scenario_history) /\
  Update.effective_message scenario_update = Some scenario_message /\
  web_app_data mention_of scenario_update quiet =
    (mkWorld [U "Web_app_data - [U1](tg://user?id=1)"]
             [reply_text scenario_message scenario_reversed
                (make_calc_keyboard (U "2"))],
     Returned tt).
Proof.
  repeat (split; [reflexivity |]).
  destruct (C4_web_app_reply mention_of scenario_update quiet sender_U1
              scenario_message scenario_message
              (WebAppData.Build scenario_history)
              eq_refl eq_refl eq_refl eq_refl) as [body [_ [-> [H _]]]].
  exact H.
Defined.

Lemma C7_witness :
  Update.effective_user opened_update = Some sender_U1 /\
  exists w',
    connected_website mention_of opened_update quiet = (w', Returned tt) /\
    log w' = [U "Connected_website - [U1](tg://user?id=1)"] /\
    sent w' = [].
Proof.
  split; [reflexivity |].
  exact (C7_connected_website_logs_only mention_of opened_update quiet
           sender_U1 eq_refl).
Defined.

Lemma feedback_two_sends_example :
  Update.effective_user feedback_update = Some sender_U1 /\
  Update.message feedback_update = Some feedback_message /\
  Update.effective_message feedback_update = Some feedback_message /\
  Message.text feedback_message = Some (U "/feedback " ++ U "Hello admin") /\
  exists ack forwarded,
    feedback_cmd (U "admin") mention_of feedback_update quiet =
      (mkWorld []
               [reply_text feedback_message ack (make_calc_keyboard []);
                send_message (U "admin") forwarded],
       Returned tt) /\
    ack = mention_of sender_U1 ++ U ", thank you" ++ [LF] /\
    contains (mention_of sender_U1) forwarded /\
    contains (U "1") forwarded /\
    contains (U "Hello admin") forwarded.
Proof.
  repeat (split; [reflexivity |]).
  exact (feedback_two_sends_on_message (U "admin") mention_of feedback_update quiet
           sender_U1 feedback_message feedback_message (U "Hello admin")
           eq_refl eq_refl eq_refl eq_refl).
Defined.

(** C6: the handler does not do this for every feedback command. The
    command "/feedback Hello admin" that arrives as an edit of an earlier
    message has an effective message with that text and no [message]:
    [feedback_cmd] raises on it and sends nothing, neither the
    acknowledgment nor the message to the administrator, where
    [calc_button_cmd], which replies on the effective message, answers the
    same update. *)
Theorem C6_edited_feedback_sends_nothing
    (ADMIN_CHANT_ID : str) (mention : User.t -> str) (w : World) :
  Update.effective_message edited_feedback_update = Some feedback_message /\
  Message.text feedback_message = Some (U "/feedback " ++ U "Hello admin") /\
  Update.message edited_feedback_update = None /\
  feedback_cmd ADMIN_CHANT_ID mention edited_feedback_update w
  = (w, Raised AttributeError) /\
  calc_button_cmd mention edited_feedback_update w
  = (mkWorld (log w ++ [U "Calc_button - " ++ mention sender_U1])
             (sent w ++ [reply_text feedback_message
                           (U "Press the button to call Web-Calculator")
                           (make_calc_keyboard [])]),
     Returned tt).
Proof.
  repeat (split; [reflexivity |]). reflexivity.
Qed.

(** C1, as the claim states it, fails: the reversed text ends in "2", so the
    value extracted from it is not "4". *)
Lemma C1_counterexample :
  ~ (join LF (rev (split LF scenario_history)) = scenario_reversed /\
     get_math_result scenario_reversed = U "4" /\
     contains (U "value=4")
       (launch_url (make_calc_keyboard (get_math_result scenario_reversed)))).
Proof.
  intros [_ [H _]]. discriminate H.
Qed.

(** C1, amended: for the payload "1+1=2\n2+2=4" the handler reverses the
    text to "2+2=4\n1+1=2", the value extracted from the reversed text is
    "2", the numeral that ends it, and the url of the reply's launch button
    is the base url followed by ?value=2; it contains value=2 and does not
    contain value=4. *)
Theorem C1_scenario_value
    (mention : User.t -> str) (u : User.t) (w : World)
    (chat : Z) (txt : option str) :
  let m := Message.Build chat txt (Some (WebAppData.Build scenario_history)) in
  let update := Update.Build (Some u) (Some m) (Some m) in
  join LF (rev (split LF scenario_history)) = scenario_reversed /\
  get_math_result scenario_reversed = U "2" /\
  exists markup,
    web_app_data mention update w =
      (mkWorld (log w ++ [U "Web_app_data - " ++ mention u])
               (sent w ++ [reply_text m scenario_reversed markup]),
       Returned tt) /\
    launch_url markup = CALC_URL ++ U "?value=2" /\
    contains (U "value=2") (launch_url markup) /\
    ~ contains (U "value=4") (launch_url markup).
Proof.
  intros m update.
  split; [reflexivity |]. split; [reflexivity |].
  exists (make_calc_keyboard (U "2")).
  split; [reflexivity |]. split; [reflexivity |]. split.
  - now exists (CALC_URL ++ U "?"), [].
  - intros H. apply containsb_complete in H. discriminate H.
Qed.

(* ------------------------------------------------------------------ *)
(** ** More on the result extractor *)

(** Every string is a part that is empty or ends outside the class,
    followed by a run of class characters. *)
Lemma class_suffix_split (before : str) :
  exists q run,
    before = q ++ run /\ ends_outside_class q /\
    Forall (fun c => in_class c = true) run.
Proof.
  induction before as [| x front IH] using rev_ind.
  - exists [], []. split; [reflexivity |]. split; [now left | constructor].
  - destruct (in_class x) eqn:Hx.
    + destruct IH as [q [run [-> [Hq Hr]]]].
      exists q, (run ++ [x]). split; [now rewrite app_assoc |].
      split; [assumption |]. apply Forall_app. split; [assumption |].
      now constructor.
    + exists (front ++ [x]), []. split; [now rewrite app_nil_r |].
      split; [| constructor]. right. now exists front, x.
Qed.

(** A match is not continued to its left. *)
Lemma search_maximal (s m : str) :
  search s = Some m ->
  exists before r,
    s = before ++ m ++ r /\ ends_outside_class before /\
    Forall (fun c => in_class c = true) m /\ (r = [] \/ r = [LF]).
Proof.
  intros E.
  destruct (search_sound _ _ E) as [Ne [Hm [before [r [Es Hr]]]]].
  destruct (class_suffix_split before) as [q [run [Eb [Hq Hrun]]]].
  assert (E' : search s = Some (run ++ m)).
  { rewrite Es, Eb, <- !app_assoc, (app_assoc run m r).
    apply search_run; [assumption | | | assumption].
    - destruct run; [assumption | discriminate].
    - apply Forall_app. now split. }
  rewrite E in E'. injection E' as E'.
  assert (run = []) as ->.
  { apply (app_inv_tail m). now rewrite <- E'. }
  rewrite app_nil_r in Eb. subst before.
  exists q, r. repeat split; try assumption. now apply at_dollar_cases.
Qed.

Lemma search_none_inv (s : str) :
  search s = None -> no_numeral_at_dollar s.
Proof.
  intros E before c r Es Hr.
  destruct (in_class c) eqn:Hc; [| reflexivity].
  now destruct (search_some s before r c Es Hr Hc).
Qed.

Lemma ends_outside_class_after (p before : str) (x : N) :
  in_class x = false -> ends_outside_class before ->
  ends_outside_class (p ++ x :: before).
Proof.
  intros Hx [-> | [q [y [-> Hy]]]]; right.
  - now exists p, x.
  - exists (p ++ x :: q), y. split; [| assumption].
    now rewrite <- app_assoc.
Qed.

(** What stands before a character outside the class does not matter, as
    long as something follows that character. *)
Lemma get_math_result_after_break (p s : str) (x : N) :
  in_class x = false -> s <> [] ->
  get_math_result (p ++ x :: s) = get_math_result s.
Proof.
  intros Hx Ne. unfold get_math_result at 2.
  destruct (search s) as [t |] eqn:E.
  - destruct (search_maximal _ _ E) as [before [r [-> [Hb [Ht Hr]]]]].
    destruct (search_sound _ _ E) as [Nt _].
    change (p ++ x :: before ++ t ++ r) with (p ++ (x :: before) ++ t ++ r).
    rewrite app_assoc. apply get_math_result_run; try assumption.
    + now apply ends_outside_class_after.
    + now apply at_dollar_cases.
  - apply search_none_inv in E. unfold get_math_result.
    rewrite search_none; [reflexivity |].
    intros b c r Es Hr.
    destruct (app_tail_cases s) as [-> | [s' [z ->]]]; [congruence |].
    apply at_dollar_cases in Hr as [-> | ->].
    + change (p ++ x :: s' ++ [z]) with (p ++ (x :: s') ++ [z]) in Es.
      rewrite app_assoc in Es. apply app_inj_tail in Es as [_ <-].
      now apply (E s' z []).
    + change (p ++ x :: s' ++ [z]) with (p ++ (x :: s') ++ [z]) in Es.
      change (b ++ [c; LF]) with (b ++ [c] ++ [LF]) in Es.
      rewrite !app_assoc in Es. apply app_inj_tail in Es as [Es ->].
      destruct (app_tail_cases s') as [-> | [s'' [z' ->]]].
      * simpl in Es. apply app_inj_tail in Es as [_ <-]. assumption.
      * change ((p ++ x :: s'' ++ [z'])) with (p ++ (x :: s'') ++ [z']) in Es.
        rewrite app_assoc in Es. apply app_inj_tail in Es as [_ <-].
        apply (E s'' z' [LF]); [| reflexivity].
        now rewrite <- app_assoc.
Qed.

(** X1: a non-empty value is returned exactly for the run of digits and
    decimal points that is not continued to its left and that stands at the
    end of the text or before one newline that ends the text. *)
Theorem X1_result_characterised (s t : str) :
  t <> [] ->
  (get_math_result s = t <->
   exists before r,
     s = before ++ t ++ r /\ ends_outside_class before /\
     Forall (fun c => in_class c = true) t /\ (r = [] \/ r = [LF])).
Proof.
  intros Ne. split.
  - unfold get_math_result. destruct (search s) as [m |] eqn:E.
    + intros <-. now apply search_maximal.
    + intros <-. congruence.
  - intros [before [r [-> [Hb [Ht Hr]]]]].
    apply get_math_result_run; try assumption. now apply at_dollar_cases.
Qed.

Lemma X1_witness :
  U "12." <> [] /\ get_math_result (U "3*4=12." ++ [LF]) = U "12.".
Proof.
  assert (Ne : U "12." <> []) by discriminate.
  split; [exact Ne |].
  apply (proj2 (X1_result_characterised (U "3*4=12." ++ [LF]) (U "12.") Ne)).
  exists (U "3*4="), [LF]. split; [reflexivity |]. split.
  - right. exists (U "3*4"), 61. now split.
  - split; [repeat constructor | now right].
Defined.

(** X2: extracting from an extracted value changes nothing: a value that the
    calculator sends back alone is found again as it is. *)
Theorem X2_extract_idempotent (s : str) :
  get_math_result (get_math_result s) = get_math_result s.
Proof.
  unfold get_math_result at 2 3. destruct (search s) as [m |] eqn:E.
  - destruct (search_sound _ _ E) as [Ne [Hm _]].
    rewrite <- (app_nil_r m) at 1.
    change (m ++ []) with ([] ++ m ++ []).
    apply get_math_result_run; [now left | assumption | assumption | reflexivity].
  - reflexivity.
Qed.

(** X3: the value depends only on what follows the last character that is
    neither a digit nor a decimal point: a text in front of such a character
    changes nothing, provided something follows the character. *)
Theorem X3_only_the_tail_counts (p s : str) (x : N) :
  in_class x = false -> s <> [] ->
  get_math_result (p ++ x :: s) = get_math_result s.
Proof. apply get_math_result_after_break. Qed.

Lemma X3_witness :
  in_class LF = false /\ U "2+2=4" <> [] /\
  get_math_result (U "1+1=2" ++ LF :: U "2+2=4") = get_math_result (U "2+2=4").
Proof.
  assert (Hx : in_class LF = false) by reflexivity.
  assert (Ne : U "2+2=4" <> []) by discriminate.
  split; [exact Hx |]. split; [exact Ne |].
  exact (X3_only_the_tail_counts (U "1+1=2") (U "2+2=4") LF Hx Ne).
Defined.

(** X4: one newline added to a text that does not end in a newline does not
    change the value. *)
Theorem X4_one_final_newline_unseen (s : str) :
  (forall front, s <> front ++ [LF]) ->
  get_math_result (s ++ [LF]) = get_math_result s.
Proof.
  intros NoLF. unfold get_math_result at 2.
  destruct (search s) as [t |] eqn:E.
  - destruct (search_maximal _ _ E) as [before [r [Es [Hb [Ht Hr]]]]].
    destruct (search_sound _ _ E) as [Nt _].
    destruct Hr as [-> | ->].
    + rewrite Es, app_nil_r, <- app_assoc.
      now apply get_math_result_run.
    + exfalso. apply (NoLF (before ++ t)). now rewrite Es, app_assoc.
  - apply search_none_inv in E. unfold get_math_result.
    rewrite search_none; [reflexivity |].
    intros b c r Es Hr. apply at_dollar_cases in Hr as [-> | ->].
    + apply app_inj_tail in Es as [_ <-]. reflexivity.
    + change (b ++ [c; LF]) with (b ++ [c] ++ [LF]) in Es.
      rewrite app_assoc in Es. apply app_inj_tail in Es as [Es _].
      now apply (E b c []).
Qed.

Lemma X4_witness :
  (forall front, U "3*4=12" <> front ++ [LF]) /\
  get_math_result (U "3*4=12" ++ [LF]) = get_math_result (U "3*4=12").
Proof.
  assert (NoLF : forall front, U "3*4=12" <> front ++ [LF]).
  { intros front E. change (U "3*4=12") with (U "3*4=1" ++ [50]) in E.
    apply app_inj_tail in E as [_ E]. discriminate E. }
  split; [exact NoLF |].
  exact (X4_one_final_newline_unseen (U "3*4=12") NoLF).
Defined.

(* ------------------------------------------------------------------ *)
(** ** More on the line reversal *)

Section Reversal.

Variable sep : N.

Lemma join_snoc (pieces : list str) (piece : str) :
  pieces <> [] ->
  join sep (pieces ++ [piece]) = join sep pieces ++ sep :: piece.
Proof.
  induction pieces as [| p more IH]; intros Ne; [congruence |].
  destruct more as [| p' more]; [reflexivity |].
  change (join sep ((p :: p' :: more) ++ [piece]))
    with (p ++ sep :: join sep ((p' :: more) ++ [piece])).
  rewrite IH by discriminate.
  rewrite (join_cons sep p (p' :: more)) by discriminate.
  now rewrite <- app_assoc.
Qed.

(** The first line of a text is the last line of the reversed text. *)
Lemma reverse_first_line (first rest : str) :
  no_sep sep first ->
  join sep (rev (split sep (first ++ sep :: rest)))
  = join sep (rev (split sep rest)) ++ sep :: first.
Proof.
  intros Hf. rewrite split_app_sep by assumption.
  simpl rev. apply join_snoc. apply rev_split_ok.
Qed.

Lemma reverse_one_line (line : str) :
  no_sep sep line -> join sep (rev (split sep line)) = line.
Proof. intros H. now rewrite split_plain. Qed.

Lemma join_rev_perm (pieces : list str) :
  Permutation (join sep (rev pieces)) (join sep pieces).
Proof.
  induction pieces as [| p more IH]; [constructor |].
  destruct more as [| p' more]; [apply Permutation_refl |].
  assert (Ne : rev (p' :: more) <> []).
  { intros E. apply (f_equal (@rev str)) in E.
    rewrite rev_involutive in E. discriminate E. }
  change (rev (p :: p' :: more)) with (rev (p' :: more) ++ [p]).
  rewrite join_snoc by assumption.
  rewrite (join_cons sep p (p' :: more)) by discriminate.
  etransitivity; [apply Permutation_app_comm |].
  simpl app. etransitivity; [apply Permutation_middle |].
  apply Permutation_app_head. now constructor.
Qed.

End Reversal.

(** X5: the text of a reply to a web-app payload is a rearrangement of the
    payload: the same characters, as many of them, and as many lines. *)
Theorem X5_reversal_keeps_the_characters (s : str) :
  Permutation (join LF (rev (split LF s))) s /\
  List.length (join LF (rev (split LF s))) = List.length s /\
  List.length (split LF (join LF (rev (split LF s))))
  = List.length (split LF s).
Proof.
  assert (P : Permutation (join LF (rev (split LF s))) s).
  { etransitivity; [apply join_rev_perm |]. now rewrite join_split. }
  split; [exact P |]. split.
  - now apply Permutation_length.
  - now rewrite split_reversed, length_rev.
Qed.

(* ------------------------------------------------------------------ *)
(** ** More on the launch keyboard *)

(** X8: the keyboard tells the value apart: two values with the same launch
    url are the same value, and so are two values with the same label. *)
Theorem X8_keyboard_determines_value (v1 v2 : str) :
  (launch_url (make_calc_keyboard v1) = launch_url (make_calc_keyboard v2) ->
   v1 = v2) /\
  (launch_label (make_calc_keyboard v1) = launch_label (make_calc_keyboard v2) ->
   v1 = v2).
Proof.
  unfold make_calc_keyboard, launch_url, launch_label.
  destruct v1 as [| a v1], v2 as [| b v2];
    cbn [truthy ReplyKeyboardMarkup.keyboard KeyboardButton.text
         KeyboardButton.web_app WebAppInfo.url];
    split; intros E; try reflexivity.
  - rewrite <- (app_nil_r CALC_URL) in E at 1.
    apply app_inv_head in E. discriminate E.
  - rewrite <- (app_nil_r (U "Call calculator")) in E at 1.
    apply app_inv_head in E. discriminate E.
  - rewrite <- (app_nil_r CALC_URL) in E at 2.
    apply app_inv_head in E. discriminate E.
  - rewrite <- (app_nil_r (U "Call calculator")) in E at 2.
    apply app_inv_head in E. discriminate E.
  - now do 2 apply app_inv_head in E.
  - now do 2 apply app_inv_head in E.
Qed.

Lemma X8_witness :
  launch_url (make_calc_keyboard (U "4")) = launch_url (make_calc_keyboard (U "4"))
  /\ U "4" = U "4".
Proof.
  split; [reflexivity |].
  exact (proj1 (X8_keyboard_determines_value (U "4") (U "4")) eq_refl).
Defined.

(* ------------------------------------------------------------------ *)
(** ** More on the handlers *)

(** X6: when the payload has several lines, the launch button of the reply
    carries the value of the payload's first line, which the reversal has
    made the last line of the reply. *)
Theorem X6_seed_from_first_payload_line
    (mention : User.t -> str) (update : Update.t) (w : World)
    (u : User.t) (m em : Message.t) (payload : WebAppData.t)
    (first rest : str) :
  Update.effective_user update = Some u ->
  Update.message update = Some m ->
  Message.web_app_data m = Some payload ->
  Update.effective_message update = Some em ->
  WebAppData.data payload = first ++ LF :: rest ->
  no_sep LF first -> first <> [] ->
  web_app_data mention update w =
    (mkWorld (log w ++ [U "Web_app_data - " ++ mention u])
             (sent w ++ [reply_text em
                           (join LF (rev (split LF rest)) ++ LF :: first)
                           (make_calc_keyboard (get_math_result first))]),
     Returned tt).
Proof.
  intros Hu Hm Hp Hem Hd Hf Ne.
  unfold web_app_data, bind, attr, logger_info, emit.
  rewrite Hu, Hm, Hp, Hem, Hd. cbn [log sent].
  rewrite reverse_first_line by assumption.
  now rewrite get_math_result_after_break by (reflexivity || assumption).
Qed.

Lemma X6_witness :
  WebAppData.data (WebAppData.Build scenario_history)
    = U "1+1=2" ++ LF :: U "2+2=4" /\
  no_sep LF (U "1+1=2") /\ U "1+1=2" <> [] /\
  web_app_data mention_of scenario_update quiet =
    (mkWorld [U "Web_app_data - [U1](tg://user?id=1)"]
             [reply_text scenario_message (U "2+2=4" ++ LF :: U "1+1=2")
                (make_calc_keyboard (get_math_result (U "1+1=2")))],
     Returned tt).
Proof.
  assert (Hf : no_sep LF (U "1+1=2")).
  { intros In. repeat (destruct In as [E | In]; [discriminate E |]).
    exact In. }
  assert (Ne : U "1+1=2" <> []) by discriminate.
  split; [reflexivity |]. split; [exact Hf |]. split; [exact Ne |].
  exact (X6_seed_from_first_payload_line mention_of scenario_update quiet
           sender_U1 scenario_message scenario_message
           (WebAppData.Build scenario_history) (U "1+1=2") (U "2+2=4")
           eq_refl eq_refl eq_refl eq_refl eq_refl Hf Ne).
Defined.

(** X7: a payload of one line (no newline in it, the empty payload
    included) is sent back as it is, with the launch button for its
    value. *)
Theorem X7_one_line_payload_echoed
    (mention : User.t -> str) (update : Update.t) (w : World)
    (u : User.t) (m em : Message.t) (payload : WebAppData.t) :
  Update.effective_user update = Some u ->
  Update.message update = Some m ->
  Message.web_app_data m = Some payload ->
  Update.effective_message update = Some em ->
  no_sep LF (WebAppData.data payload) ->
  web_app_data mention update w =
    (mkWorld (log w ++ [U "Web_app_data - " ++ mention u])
             (sent w ++ [reply_text em (WebAppData.data payload)
                           (make_calc_keyboard
                              (get_math_result (WebAppData.data payload)))]),
     Returned tt).
Proof.
  intros Hu Hm Hp Hem Hd.
  unfold web_app_data, bind, attr, logger_info, emit.
  rewrite Hu, Hm, Hp, Hem. cbn [log sent].
  now rewrite reverse_one_line by assumption.
Qed.

Lemma X7_witness :
  no_sep LF (U "7*6=42") /\
  web_app_data mention_of one_line_update quiet =
    (mkWorld [U "Web_app_data - [U1](tg://user?id=1)"]
             [reply_text one_line_message (U "7*6=42")
                (make_calc_keyboard (U "42"))],
     Returned tt).
Proof.
  assert (Hd : no_sep LF (U "7*6=42")).
  { intros In. repeat (destruct In as [E | In]; [discriminate E |]).
    exact In. }
  split; [exact Hd |].
  exact (X7_one_line_payload_echoed mention_of one_line_update quiet
           sender_U1 one_line_message one_line_message
           (WebAppData.Build (U "7*6=42")) eq_refl eq_refl eq_refl eq_refl Hd).
Defined.

(** X9: /calc writes one log line and sends one reply, the prompt with the
    launch button for no value, whose url is the base url without a query;
    it reads only the effective message, so a command that arrived as an
    edit is answered too. *)
Theorem X9_calc_button_reply
    (mention : User.t -> str) (update : Update.t) (w : World)
    (u : User.t) (em : Message.t) :
  Update.effective_user update = Some u ->
  Update.effective_message update = Some em ->
  calc_button_cmd mention update w =
    (mkWorld (log w ++ [U "Calc_button - " ++ mention u])
             (sent w ++ [reply_text em
                           (U "Press the button to call Web-Calculator")
                           (make_calc_keyboard [])]),
     Returned tt) /\
  launch_url (make_calc_keyboard []) = CALC_URL /\
  ~ contains (U "?") (launch_url (make_calc_keyboard [])).
Proof.
  intros Hu Hem. split; [| split].
  - unfold calc_button_cmd, bind, attr, logger_info, emit.
    now rewrite Hu, Hem.
  - reflexivity.
  - intros H. apply containsb_complete in H. discriminate H.
Qed.

Lemma X9_witness :
  Update.message edited_calc_update = None /\
  Update.effective_user edited_calc_update = Some sender_U1 /\
  Update.effective_message edited_calc_update = Some calc_message /\
  calc_button_cmd mention_of edited_calc_update quiet =
    (mkWorld [U "Calc_button - [U1](tg://user?id=1)"]
             [reply_text calc_message
                (U "Press the button to call Web-Calculator")
                (make_calc_keyboard [])],
     Returned tt).
Proof.
  repeat (split; [reflexivity |]).
  exact (proj1 (X9_calc_button_reply mention_of edited_calc_update quiet
                  sender_U1 calc_message eq_refl eq_refl)).
Defined.

(** X10: /feedback on an update without [message] (the command arrived as
    an edit) or without a user raises before anything is sent: no
    acknowledgment, nothing for the administrator, no log line. *)
Theorem X10_feedback_needs_message_and_user
    (ADMIN_CHANT_ID : str) (mention : User.t -> str)
    (update : Update.t) (w : World) :
  Update.message update = None \/ Update.effective_user update = None ->
  feedback_cmd ADMIN_CHANT_ID mention update w = (w, Raised AttributeError).
Proof.
  unfold feedback_cmd, bind, attr. intros [H | H]; rewrite H.
  - reflexivity.
  - now destruct (Update.message update).
Qed.

Lemma X10_witness :
  (Update.message edited_feedback_update = None \/
   Update.effective_user edited_feedback_update = None) /\
  feedback_cmd (U "admin") mention_of edited_feedback_update quiet
  = (quiet, Raised AttributeError).
Proof.
  assert (H : Update.message edited_feedback_update = None \/
              Update.effective_user edited_feedback_update = None)
    by (left; reflexivity).
  split; [exact H |].
  exact (X10_feedback_needs_message_and_user (U "admin") mention_of
           edited_feedback_update quiet H).
Defined.

(** X11: on every update /feedback leaves the log as it was, and what it
    sends is nothing, or the acknowledgment alone when it then raises for
    want of an effective message, or the acknowledgment followed by the
    message to the administrator's chat; the administrator is never written
    to before the sender is answered. *)
Theorem X11_feedback_sends_in_order
    (ADMIN_CHANT_ID : str) (mention : User.t -> str)
    (update : Update.t) (w : World) :
  exists w' out,
    feedback_cmd ADMIN_CHANT_ID mention update w = (w', out) /\
    log w' = log w /\
    ((sent w' = sent w /\ out = Raised AttributeError) \/
     (exists m ack,
        Update.message update = Some m /\
        Update.effective_message update = None /\
        sent w' = sent w ++ [reply_text m ack (make_calc_keyboard [])] /\
        out = Raised AttributeError) \/
     (exists m ack forwarded,
        Update.message update = Some m /\
        sent w' = sent w ++ [reply_text m ack (make_calc_keyboard []);
                             send_message ADMIN_CHANT_ID forwarded] /\
        out = Returned tt)).
Proof.
  unfold feedback_cmd, bind, attr, emit.
  destruct (Update.message update) as [m |].
  2: { do 2 eexists. split; [reflexivity |]. split; [reflexivity |]. now left. }
  destruct (Update.effective_user update) as [u |].
  2: { do 2 eexists. split; [reflexivity |]. split; [reflexivity |]. now left. }
  destruct (Update.effective_message update) as [em |].
  - do 2 eexists. split; [reflexivity |]. split; [reflexivity |].
    right. right. do 3 eexists. split; [reflexivity |].
    split; [| reflexivity]. cbn [sent]. now rewrite <- app_assoc.
  - do 2 eexists. split; [reflexivity |]. split; [reflexivity |].
    right. left. do 2 eexists. repeat split.
Qed.

(** X12: on every update the web-app handler sends at most one message, a
    reply on the update's effective message whose launch button is made
    from the value of the reply's own text; it never writes to another
    chat, and it sends nothing when it raises. *)
Theorem X12_web_app_data_replies_only
    (mention : User.t -> str) (update : Update.t) (w : World) :
  exists w' out,
    web_app_data mention update w = (w', out) /\
    ((Update.effective_user update = None /\
      w' = w /\ out = Raised AttributeError) \/
     (exists u,
        Update.effective_user update = Some u /\
        log w' = log w ++ [U "Web_app_data - " ++ mention u] /\
        sent w' = sent w /\ out = Raised AttributeError) \/
     (exists u em body,
        Update.effective_user update = Some u /\
        Update.effective_message update = Some em /\
        log w' = log w ++ [U "Web_app_data - " ++ mention u] /\
        sent w' = sent w ++ [reply_text em body
                               (make_calc_keyboard (get_math_result body))] /\
        out = Returned tt)).
Proof.
  unfold web_app_data, bind, attr, logger_info, emit.
  destruct (Update.effective_user update) as [u |].
  2: { do 2 eexists. split; [reflexivity |]. now left. }
  cbn [log sent].
  destruct (Update.message update) as [m |].
  2: { do 2 eexists. split; [reflexivity |]. right. left. now exists u. }
  destruct (Message.web_app_data m) as [payload |].
  2: { do 2 eexists. split; [reflexivity |]. right. left. now exists u. }
  destruct (Update.effective_message update) as [em |].
  2: { do 2 eexists. split; [reflexivity |]. right. left. now exists u. }
  do 2 eexists. split; [reflexivity |]. right. right.
  exists u, em. eexists. repeat split.
Qed.

(** X13: on every update the session-opened handler sends nothing, and it
    writes its log line or, without a user, raises and writes none. *)
Theorem X13_connected_website_never_sends
    (mention : User.t -> str) (update : Update.t) (w : World) :
  exists w' out,
    connected_website mention update w = (w', out) /\
    sent w' = sent w /\
    ((Update.effective_user update = None /\
      log w' = log w /\ out = Raised AttributeError) \/
     (exists u,
        Update.effective_user update = Some u /\
        log w' = log w ++ [U "Connected_website - " ++ mention u] /\
        out = Returned tt)).
Proof.
  unfold connected_website, bind, attr, logger_info.
  destruct (Update.effective_user update) as [u |].
  - do 2 eexists. split; [reflexivity |]. split; [reflexivity |].
    right. now exists u.
  - do 2 eexists. split; [reflexivity |]. split; [reflexivity |]. now left.
Qed.
